(** * internal_displacement.sql_pipeline: the URL -> article pipeline

    A shallow embedding of [URLArticlePipelineSQL]
    (src/internal_displacement/sql_pipeline.py) and the properties of its
    five operations: [__init__], [insert_article], [process_urls],
    [process_labeled_data] and [get_training_data].

    The SQLite file is modelled by its two tables.  A table is the list of
    its rows in insertion (rowid) order, together with one bit of schema:
    whether the table was declared with a uniqueness constraint on [url].
    The pipeline opens its connection with [isolation_level=None], so the
    connection is in autocommit mode: an INSERT is durable as soon as it
    has executed, and [commit()] has nothing left to do.  The state below
    is therefore the persisted state. *)

From Stdlib Require Import List String Bool Arith Lia Permutation.
Import ListNotations.
Open Scope string_scope.
Open Scope list_scope.
Open Scope nat_scope.

Set Implicit Arguments.

(** ** Data model *)

(** [internal_displacement.article.Article], as far as the pipeline reads
    it.  [pub_date_string] stands for the result of
    [article.get_pub_date_string()]. *)
Record Article : Type := mkArticle {
  title : string;
  url : string;
  authors : list string;
  pub_date_string : string;
  domain : string;
  content : string;
  content_type : string
}.

(** A row of
    [Articles (title, url, author, datetime, domain, content, content_type)]. *)
Record article_row : Type := mkArticleRow {
  r_title : string;
  r_url : string;
  r_author : string;
  r_datetime : string;
  r_domain : string;
  r_content : string;
  r_content_type : string
}.

(** A row of [Labels (url, category)]. *)
Definition label_row : Type := (string * string)%type.

Record table (R : Type) : Type := mkTable {
  unique_url : bool;
  rows : list R
}.

(** What [CREATE TABLE IF NOT EXISTS t (... url TEXT ...)] creates when [t]
    is absent: no PRIMARY KEY, no UNIQUE. *)
Definition created_table (R : Type) : table R :=
  {| unique_url := false; rows := [] |}.

(** The database file: a table is [None] until it has been created. *)
Record database : Type := mkDatabase {
  db_articles : option (table article_row);
  db_labels : option (table label_row)
}.

Definition new_file : database :=
  {| db_articles := None; db_labels := None |}.

(** The state behind [self.sql_connection] once [__init__] has run. *)
Record pipeline : Type := mkPipeline {
  Articles : table article_row;
  Labels : table label_row
}.

Definition persisted (self : pipeline) : database :=
  {| db_articles := Some (Articles self); db_labels := Some (Labels self) |}.

(** Python exceptions the pipeline can meet. *)
Inductive exn : Type :=
| IntegrityError
| AttributeError
| KeyError
| ScrapeError (msg : string).

(** [str(e)] *)
Definition str (e : exn) : string :=
  match e with
  | IntegrityError => "UNIQUE constraint failed"
  | AttributeError => "'URLArticlePipelineSQL' object has no attribute 'url'"
  | KeyError => "'url'"
  | ScrapeError msg => msg
  end.

(** What an operation leaves behind: [print] lines, scrape tasks handed to
    the executor, and calls of [insert_article]. *)
Inductive event : Type :=
| Printed (line : string)
| Submit (u : string)
| CallInsert (a : Article).

(** The result of running a method: the store it leaves, what it emitted,
    and the exception that left the method, if any. *)
Record outcome : Type := mkOutcome {
  final : pipeline;
  emitted : list event;
  raised : option exn
}.

Definition inb (u : string) (l : list string) : bool :=
  existsb (String.eqb u) l.

(** ** The store *)

(** [cursor.execute("INSERT INTO t VALUES (...)", row)] on a table whose
    rows have [key] as their url. *)
Definition execute_insert (R : Type) (key : R -> string) (t : table R) (row : R)
  : table R + exn :=
  if unique_url t && inb (key row) (map key (rows t))
  then inr IntegrityError
  else inl {| unique_url := unique_url t; rows := rows t ++ [row] |}.

(** [SELECT url FROM t] *)
Definition select_url (R : Type) (key : R -> string) (t : table R) : list string :=
  map key (rows t).

(** ** [__init__] (lines 43-51) *)

Definition create_if_not_exists (R : Type) (t : option (table R)) : table R :=
  match t with
  | Some existing => existing
  | None => created_table R
  end.

Definition init (file : database) : pipeline :=
  {| Articles := create_if_not_exists (db_articles file);
     Labels := create_if_not_exists (db_labels file) |}.

(** ** [insert_article] (lines 53-74) *)

Definition row_of_article (article : Article) : article_row :=
  {| r_title := title article;
     r_url := url article;
     r_author := String.concat "," (authors article);
     r_datetime := pub_date_string article;
     r_domain := domain article;
     r_content := content article;
     r_content_type := content_type article |}.

(** [self.url]: a [URLArticlePipelineSQL] has the attributes
    [sql_connection] and [sql_cursor] and no other. *)
Definition self_url (self : pipeline) : string + exn := inr AttributeError.

(** ["URL{url} already exists in article table. Skipping.".format(x)]: the
    template names the field [url] and [format] is given one positional
    argument. *)
Definition format_already_exists (x : string) : string + exn := inr KeyError.

Definition with_articles (self : pipeline) (t : table article_row) : pipeline :=
  {| Articles := t; Labels := Labels self |}.

Definition insert_article (self : pipeline) (article : Article) : outcome :=
  match execute_insert r_url (Articles self) (row_of_article article) with
  | inl t => mkOutcome (with_articles self t) [] None
  | inr IntegrityError =>
      match self_url self with
      | inr e => mkOutcome self [] (Some e)
      | inl u =>
          match format_already_exists u with
          | inr e => mkOutcome self [] (Some e)
          | inl line => mkOutcome self [Printed line] None
          end
      end
  | inr e => mkOutcome self [Printed ("Exception: " ++ str e)] None
  end.

(** ** [process_urls] (lines 76-103) *)

(** What [scrape(url)] does: it returns an article, returns [None], or
    raises. *)
Inductive scrape_result : Type :=
| Scraped (article : Article)
| NoContent
| ScrapeRaised (e : exn).

(** A future of [executor.submit(scrape, url)]: the url it was submitted
    for and what [f.result()] will give. *)
Definition future : Type := (string * scrape_result)%type.

(** Lines 87-88: the urls of the CSV column that [SELECT url FROM Articles]
    does not return. *)
Definition urls_to_scrape (self : pipeline) (urls : list string) : list string :=
  let existing_urls := select_url r_url (Articles self) in
  filter (fun u => negb (inb u existing_urls)) urls.

(** Lines 95-103, the body of the loop over the completed futures.  An
    exception leaving [insert_article] is caught by the same handler as one
    leaving [f.result()]. *)
Definition handle_completed (self : pipeline) (f : future) : pipeline * list event :=
  match snd f with
  | ScrapeRaised e => (self, [Printed ("Exception: " ++ str e)])
  | NoContent => (self, [])
  | Scraped article =>
      let o := insert_article self article in
      (final o,
       Printed (title article) :: CallInsert article :: emitted o ++
       match raised o with
       | Some e => [Printed ("Exception: " ++ str e)]
       | None => []
       end)
  end.

Fixpoint drain (self : pipeline) (completed : list future) : pipeline * list event :=
  match completed with
  | [] => (self, [])
  | f :: rest =>
      let (self1, out1) := handle_completed self f in
      let (self2, out2) := drain self1 rest in
      (self2, out1 ++ out2)
  end.

(** [executor.submit(scrape, url)] *)
Definition submit (scrape : string -> scrape_result) (u : string) : future :=
  (u, scrape u).

Section Collaborators.

(** The scraper, and the order in which
    [concurrent.futures.as_completed] hands the futures back. *)
Variable scrape : string -> scrape_result.
Variable as_completed : list future -> list future.

(** [csv_urls] is [urls_from_csv(csv_read(url_csv), url_column)]. *)
Definition process_urls (self : pipeline) (csv_urls : list string) : outcome :=
  let urls := urls_to_scrape self csv_urls in
  let article_futures := map (submit scrape) urls in
  let (self', out) := drain self (as_completed article_futures) in
  mkOutcome self' (map Submit urls ++ out) None.

End Collaborators.

(** ** [process_labeled_data] (lines 105-121) *)

(** [cursor.executemany("INSERT INTO Labels VALUES (?, ?)", values)] on the
    autocommit connection: the rows are inserted one after the other, and
    the first one that fails ends the call with its exception. *)
Fixpoint executemany_insert (t : table label_row) (values : list label_row)
  : table label_row * option exn :=
  match values with
  | [] => (t, None)
  | v :: rest =>
      match execute_insert fst t v with
      | inl t' => executemany_insert t' rest
      | inr e => (t, Some e)
      end
  end.

Definition with_labels (self : pipeline) (t : table label_row) : pipeline :=
  {| Articles := Articles self; Labels := t |}.

(** [df] is the data frame of [pd.read_csv], one (url, label) pair per CSV
    row. *)
Definition process_labeled_data (self : pipeline) (df : list (string * string))
  : outcome :=
  let urls := map fst df in
  let existing_urls := select_url fst (Labels self) in
  let urls := filter (fun u => negb (inb u existing_urls)) urls in
  let labels := map snd df in
  let values := combine urls labels in
  let (t, e) := executemany_insert (Labels self) values in
  mkOutcome (with_labels self t) [] e.

(** ** [get_training_data] (lines 123-134) *)

(** [SELECT content, category FROM Articles INNER JOIN Labels
     ON Articles.url = Labels.url], as a nested loop with Articles outside. *)
Definition inner_join (a : table article_row) (l : table label_row)
  : list (string * string) :=
  flat_map
    (fun ar =>
       map (fun lr => (r_content ar, snd lr))
           (filter (fun lr => String.eqb (r_url ar) (fst lr)) (rows l)))
    (rows a).

(** The cursor [execute] returns: the result rows it has still to yield. *)
Definition cursor : Type := list (string * string).

Inductive column : Type := Col0 | Col1.

Definition item (c : column) (r : string * string) : string :=
  match c with Col0 => fst r | Col1 => snd r end.

(** Iterating over the cursor to its end: every pending row is yielded and
    the cursor is left empty. *)
Definition iterate (c : column) (cur : cursor) : list string * cursor :=
  (map (item c) cur, []).

(** The generator expression [(r[c] for r in training_cases)]: nothing is
    read from the cursor until the generator is iterated. *)
Inductive generator : Type := GenExpr (c : column).

(** [np.array(x)]: a one-dimensional array of the items of a list, or a
    zero-dimensional object array around anything that is not a sequence. *)
Inductive ndarray : Type :=
| Array1 (items : list string)
| Array0 (obj : generator).

(** The strings an array holds, when it holds strings. *)
Definition strings_of (a : ndarray) : option (list string) :=
  match a with
  | Array1 items => Some items
  | Array0 _ => None
  end.

Record training_data : Type := mkTrainingData {
  first : ndarray;
  second : ndarray;
  cursor_after : cursor
}.

Definition get_training_data (self : pipeline) : training_data :=
  let training_cases : cursor := inner_join (Articles self) (Labels self) in
  let (ls, training_cases) := iterate Col1 training_cases in
  let labels := Array1 ls in
  let features := Array0 (GenExpr Col0) in
  mkTrainingData labels features training_cases.

(** What the caller gets when it later iterates the generator inside
    [features]. *)
Definition consume (g : generator) (cur : cursor) : list string :=
  match g with GenExpr c => fst (iterate c cur) end.

(** ** The operations of the coordinator, as one type *)

Inductive operation : Type :=
| Construct
| InsertArticle (article : Article)
| ProcessURLs (csv_urls : list string)
| ProcessLabeledData (df : list (string * string))
| GetTrainingData.

(** The store an operation leaves.  [Construct] is [__init__] run again on
    the file of the store; [get_training_data] only executes a SELECT. *)
Definition run (scrape : string -> scrape_result)
    (as_completed : list future -> list future)
    (op : operation) (self : pipeline) : pipeline :=
  match op with
  | Construct => init (persisted self)
  | InsertArticle article => final (insert_article self article)
  | ProcessURLs csv_urls => final (process_urls scrape as_completed self csv_urls)
  | ProcessLabeledData df => final (process_labeled_data self df)
  | GetTrainingData => self
  end.

(** ** Reading a trace and a table *)

(** The urls handed to [executor.submit], in order. *)
Fixpoint submitted (out : list event) : list string :=
  match out with
  | [] => []
  | Submit u :: rest => u :: submitted rest
  | _ :: rest => submitted rest
  end.

(** The articles [insert_article] was called with, in order. *)
Fixpoint insert_calls (out : list event) : list Article :=
  match out with
  | [] => []
  | CallInsert a :: rest => a :: insert_calls rest
  | _ :: rest => insert_calls rest
  end.

(** The articles among the results of a list of futures. *)
Fixpoint articles_of (fs : list future) : list Article :=
  match fs with
  | [] => []
  | (_, Scraped a) :: rest => a :: articles_of rest
  | _ :: rest => articles_of rest
  end.





(** How many articles of [l] have the url [u]. *)
Definition count_articles (u : string) (l : list Article) : nat :=
  List.length (filter (fun a => String.eqb (url a) u) l).

(** How many rows of [rs] have the url [u]. *)
Definition count_url (u : string) (rs : list article_row) : nat :=
  List.length (filter (fun r => String.eqb (r_url r) u) rs).

(** The batch [process_labeled_data] hands to [executemany]. *)
Definition labeled_batch (self : pipeline) (df : list (string * string))
  : list label_row :=
  combine
    (filter (fun u => negb (inb u (select_url fst (Labels self)))) (map fst df))
    (map snd df).

(** ** Sample data *)

Definition sample_article (u body : string) : Article :=
  {| title := "Floods displace thousands";
     url := u;
     authors := ["A. Reporter"; "B. Editor"];
     pub_date_string := "2017-02-01 00:00:00";
     domain := "a.test";
     content := body;
     content_type := "text/html" |}.

(** A scraper that succeeds on every url. *)
Definition scrape_all (u : string) : scrape_result :=
  Scraped (sample_article u ("text of " ++ u)).

(** A scraper that fails on one url and succeeds on the others. *)
Definition scrape_but (bad : string) (u : string) : scrape_result :=
  if String.eqb u bad then ScrapeRaised (ScrapeError "timed out")
  else scrape_all u.

(** Futures handed back in submission order. *)
Definition in_submission_order (fs : list future) : list future := fs.

(** The store of a file that did not exist. *)
Definition fresh_store : pipeline := init new_file.

(** The store of a file whose tables were declared with [url] as their
    primary key, as the module's docstring describes them. *)
Definition keyed_file : database :=
  {| db_articles := Some {| unique_url := true; rows := [] |};
     db_labels := Some {| unique_url := true; rows := [] |} |}.

Definition keyed_store : pipeline := init keyed_file.

(** A store whose Labels table already holds the label of one url. *)
Definition labelled_store : pipeline :=
  final (process_labeled_data fresh_store [("http://a.test", "disaster")]).

(** A labelled CSV whose first url is already in [labelled_store]. *)
Definition labelled_csv : list (string * string) :=
  [("http://a.test", "disaster"); ("http://b.test", "other")].

(** A store with one article and its label. *)
Definition trained_store : pipeline :=
  final (process_labeled_data
           (final (insert_article fresh_store
                     (sample_article "http://a.test" "flood text")))
           [("http://a.test", "disaster")]).

(** A keyed store that already holds the article of one url. *)
Definition keyed_store_with_a : pipeline :=
  final (insert_article keyed_store (sample_article "http://a.test" "flood text")).

(** A labelled CSV that names one url twice. *)
Definition repeated_csv : list (string * string) :=
  [("http://a.test", "disaster"); ("http://a.test", "other")].

(** Futures handed back last submitted first. *)
Definition in_reverse_order (fs : list future) : list future := rev fs.

(** The url column of a CSV, and one that names a url twice. *)
Definition sample_urls : list string :=
  ["http://a.test"; "http://b.test"; "http://c.test"].

Definition repeated_urls : list string :=
  ["http://a.test"; "http://a.test"; "http://b.test"].

(** Whether a scrape returned an article. *)
Definition scrape_returns_article (r : scrape_result) : bool :=
  match r with Scraped _ => true | _ => false end.

(** A labelled CSV with three rows, the first url named twice. *)
Definition three_labels : list (string * string) :=
  [("http://a.test", "disaster"); ("http://b.test", "other");
   ("http://a.test", "conflict")].

(** A scraper that finds no content at one url, fails on another and
    succeeds on the others. *)
Definition scrape_some (u : string) : scrape_result :=
  if String.eqb u "http://c.test" then NoContent
  else scrape_but "http://b.test" u.

(** A caller inserting a list of articles one after the other, going on
    after a call that raised as the loop of [process_urls] does. *)
Definition insert_all (self : pipeline) (articles : list Article) : pipeline :=
  fold_left (fun s a => final (insert_article s a)) articles self.

(** The table [t] once the rows [new] have been inserted after its own. *)
Definition appended (R : Type) (t : table R) (new : list R) : table R :=
  {| unique_url := unique_url t; rows := rows t ++ new |}.


(** * Properties *)

(** ** Lists *)

Lemma inb_true_iff (u : string) (l : list string) :
  inb u l = true <-> In u l.
Proof.
  unfold inb. rewrite existsb_exists. split.
  - intros [x [Hin Heq]]. apply String.eqb_eq in Heq. now subst.
  - intros Hin. exists u. split; [exact Hin | apply String.eqb_refl].
Qed.

Lemma inb_false_iff (u : string) (l : list string) :
  inb u l = false <-> ~ In u l.
Proof.
  rewrite <- inb_true_iff. destruct (inb u l); split; congruence.
Qed.

(** ** [process_labeled_data] *)

(** C1, on the code: with "http://a.test" already labelled, the CSV rows
    (a, disaster), (b, other) make [process_labeled_data] insert the row
    (b, disaster).  The url column is filtered and the label column is
    not, so the surviving url b is zipped with the label of the skipped
    row a; the pair (b, disaster) is no row of the CSV. *)
Theorem process_labeled_data_pairs_url_with_skipped_label :
  rows (Labels labelled_store) = [("http://a.test", "disaster")] /\
  rows (Labels (final (process_labeled_data labelled_store labelled_csv)))
  = [("http://a.test", "disaster"); ("http://b.test", "disaster")] /\
  ~ In ("http://b.test", "disaster") labelled_csv /\
  In ("http://b.test", "other") labelled_csv.
Proof.
  split; [reflexivity |].
  split; [reflexivity |].
  split.
  - simpl. intros [H | [H | []]]; discriminate H.
  - simpl. right. left. reflexivity.
Qed.

(** ** [get_training_data] *)

(** Whatever the store holds, the second array of the result is a
    zero-dimensional array around a generator, the cursor that generator
    would read is exhausted, and the first array holds the categories of
    the join. *)
Lemma get_training_data_shape (self : pipeline) :
  let r := get_training_data self in
  first r = Array1 (map snd (inner_join (Articles self) (Labels self))) /\
  second r = Array0 (GenExpr Col0) /\
  cursor_after r = [] /\
  consume (GenExpr Col0) (cursor_after r) = [].
Proof.
  unfold get_training_data, iterate. simpl. repeat split.
Qed.

(** C2, on the code: for a store with one article (content "flood text")
    and its label "disaster", the join has the one row
    ("flood text", "disaster"), but [get_training_data] returns the array
    of labels and, for the features, an array that holds no string: a
    generator over a cursor the label comprehension has already emptied,
    which yields nothing when it is consumed. *)
Theorem get_training_data_returns_no_contents :
  let r := get_training_data trained_store in
  inner_join (Articles trained_store) (Labels trained_store)
  = [("flood text", "disaster")] /\
  strings_of (first r) = Some ["disaster"] /\
  strings_of (second r) = None /\
  second r = Array0 (GenExpr Col0) /\
  consume (GenExpr Col0) (cursor_after r) = [] /\
  consume (GenExpr Col0) (cursor_after r) <> ["flood text"].
Proof.
  cbv zeta. repeat split; try reflexivity. discriminate.
Qed.

(** ** [execute_insert] and [insert_article] *)

Lemma execute_insert_cases (R : Type) (key : R -> string) (t : table R) (row : R) :
  (execute_insert key t row
   = inl {| unique_url := unique_url t; rows := rows t ++ [row] |} /\
   (unique_url t = false \/ ~ In (key row) (map key (rows t)))) \/
  (execute_insert key t row = inr IntegrityError /\
   unique_url t = true /\ In (key row) (map key (rows t))).
Proof.
  unfold execute_insert.
  destruct (unique_url t) eqn:Hu; simpl.
  - destruct (inb (key row) (map key (rows t))) eqn:Hin.
    + right. apply inb_true_iff in Hin. auto.
    + left. apply inb_false_iff in Hin. auto.
  - left. auto.
Qed.

Lemma insert_article_unconstrained (self : pipeline) (article : Article) :
  unique_url (Articles self) = false ->
  insert_article self article
  = mkOutcome
      (with_articles self
         {| unique_url := false;
            rows := rows (Articles self) ++ [row_of_article article] |})
      [] None.
Proof.
  intros Hu. unfold insert_article, execute_insert. rewrite Hu. reflexivity.
Qed.

(** On a table that enforces uniqueness, inserting an article whose url is
    stored leaves the store as it was, prints nothing, and raises the
    [AttributeError] of the handler's [self.url]. *)
Lemma insert_article_duplicate_raises (self : pipeline) (article : Article) :
  unique_url (Articles self) = true ->
  In (url article) (select_url r_url (Articles self)) ->
  insert_article self article = mkOutcome self [] (Some AttributeError).
Proof.
  intros Hu Hin. unfold insert_article.
  destruct (execute_insert_cases r_url (Articles self) (row_of_article article))
    as [[_ [Hf | Hn]] | [He _]].
  - congruence.
  - exfalso. apply Hn. exact Hin.
  - rewrite He. reflexivity.
Qed.

(** C3, on the code: the Articles table of a freshly constructed store has
    no uniqueness constraint, so inserting the same article twice leaves
    two rows with its url. *)
Theorem insert_article_twice_stores_two_rows (article : Article) :
  let once := final (insert_article fresh_store article) in
  let twice := final (insert_article once article) in
  unique_url (Articles fresh_store) = false /\
  raised (insert_article once article) = None /\
  rows (Articles twice) = [row_of_article article; row_of_article article] /\
  count_url (url article) (rows (Articles twice)) = 2.
Proof.
  cbv zeta.
  rewrite (insert_article_unconstrained fresh_store article) by reflexivity.
  cbn [final].
  rewrite insert_article_unconstrained by reflexivity.
  repeat split. unfold count_url. cbn.
  rewrite !String.eqb_refl. reflexivity.
Qed.

(** C4, on the code: in a store whose Articles table has [url] as its key
    and already holds "http://a.test", inserting an article with that url
    meets the uniqueness violation; the store is unchanged, but nothing is
    printed and [insert_article] raises [AttributeError] to its caller. *)
Theorem insert_article_violation_raises_attribute_error :
  let dup := sample_article "http://a.test" "flood text, again" in
  In (url dup) (select_url r_url (Articles keyed_store_with_a)) /\
  execute_insert r_url (Articles keyed_store_with_a) (row_of_article dup)
  = inr IntegrityError /\
  final (insert_article keyed_store_with_a dup) = keyed_store_with_a /\
  emitted (insert_article keyed_store_with_a dup) = [] /\
  raised (insert_article keyed_store_with_a dup) = Some AttributeError.
Proof.
  cbv zeta. split; [simpl; auto |]. repeat split; reflexivity.
Qed.

(** ** [executemany] on the autocommit connection *)

Lemma executemany_insert_prefix (values : list label_row) :
  forall t : table label_row,
  exists k : nat,
    k <= List.length values /\
    rows (fst (executemany_insert t values)) = rows t ++ firstn k values /\
    unique_url (fst (executemany_insert t values)) = unique_url t /\
    snd (executemany_insert t values)
    = (if k <? List.length values then Some IntegrityError else None).
Proof.
  induction values as [| v rest IH]; intros t.
  - exists 0. cbn. rewrite app_nil_r. auto.
  - cbn [executemany_insert].
    destruct (execute_insert_cases fst t v) as [[He _] | [He _]];
      rewrite He; cbv beta iota.
    + destruct (IH {| unique_url := unique_url t; rows := rows t ++ [v] |})
        as (k & Hk & Hrows & Hu & Hexn).
      exists (S k). cbn [List.length firstn].
      repeat split.
      * lia.
      * etransitivity; [apply Hrows |].
        cbn [rows]. rewrite <- app_assoc. reflexivity.
      * etransitivity; [apply Hu | reflexivity].
      * etransitivity; [apply Hexn | reflexivity].
    + exists 0. cbn. rewrite app_nil_r. repeat split. lia.
Qed.

Lemma executemany_insert_unconstrained (values : list label_row) :
  forall t : table label_row,
  unique_url t = false ->
  executemany_insert t values
  = ({| unique_url := false; rows := rows t ++ values |}, None).
Proof.
  induction values as [| v rest IH]; intros [u rs] Hu; cbn in Hu; subst u.
  - cbn. rewrite app_nil_r. reflexivity.
  - cbn [executemany_insert]. unfold execute_insert.
    cbn [unique_url andb rows].
    etransitivity; [apply IH; reflexivity |].
    cbn [rows]. rewrite <- app_assoc. reflexivity.
Qed.

Lemma process_labeled_data_unfold (self : pipeline) (df : list (string * string)) :
  process_labeled_data self df
  = mkOutcome
      (with_labels self (fst (executemany_insert (Labels self) (labeled_batch self df))))
      []
      (snd (executemany_insert (Labels self) (labeled_batch self df))).
Proof.
  unfold process_labeled_data, labeled_batch.
  destruct (executemany_insert _ _). reflexivity.
Qed.

Lemma appended_nil (R : Type) (t : table R) : appended t [] = t.
Proof.
  destruct t as [key rs]. unfold appended. cbn. rewrite app_nil_r. reflexivity.
Qed.

Lemma appended_appended (R : Type) (t : table R) (l1 l2 : list R) :
  appended (appended t l1) l2 = appended t (l1 ++ l2).
Proof.
  unfold appended. cbn. rewrite app_assoc. reflexivity.
Qed.

(** [executemany] stops at the first row whose INSERT fails: the [k] rows
    before it were each inserted into the table the rows before them had
    left, and row [k], if there is one, is refused by the table those [k]
    rows have left. *)
Lemma executemany_insert_first_failure (values : list label_row) :
  forall t : table label_row,
  exists k : nat,
    k <= List.length values /\
    fst (executemany_insert t values) = appended t (firstn k values) /\
    snd (executemany_insert t values)
    = (if k <? List.length values then Some IntegrityError else None) /\
    (forall (i : nat) (row : label_row),
       i < k -> nth_error values i = Some row ->
       execute_insert fst (appended t (firstn i values)) row
       = inl (appended t (firstn (S i) values))) /\
    (forall row : label_row,
       nth_error values k = Some row ->
       execute_insert fst (appended t (firstn k values)) row
       = inr IntegrityError).
Proof.
  induction values as [| v rest IH]; intros t.
  - exists 0. cbn [executemany_insert fst snd firstn List.length Nat.ltb Nat.leb].
    rewrite appended_nil. split; [lia |]. split; [reflexivity |].
    split; [reflexivity |]. split.
    + intros i row Hi. lia.
    + intros row Hrow. discriminate Hrow.
  - cbn [executemany_insert].
    destruct (execute_insert_cases fst t v) as [[He _] | [He _]];
      rewrite He; cbv beta iota.
    + change {| unique_url := unique_url t; rows := rows t ++ [v] |}
        with (appended t [v]) in *.
      destruct (IH (appended t [v])) as (k & Hk & Hfst & Hsnd & Hbefore & Hat).
      exists (S k). cbn [List.length firstn].
      split; [lia |]. split.
      { etransitivity; [exact Hfst |]. apply appended_appended. }
      split.
      { etransitivity; [exact Hsnd |]. reflexivity. }
      split.
      * intros i row Hi Hrow. destruct i as [| j].
        -- cbn in Hrow. injection Hrow as Hrow. subst row.
           cbn [firstn]. rewrite appended_nil. exact He.
        -- cbn [nth_error] in Hrow. cbn [firstn].
           assert (Hj : j < k) by lia.
           specialize (Hbefore j row Hj Hrow).
           rewrite !appended_appended in Hbefore. exact Hbefore.
      * intros row Hrow. cbn [nth_error] in Hrow.
        specialize (Hat row Hrow).
        rewrite appended_appended in Hat. exact Hat.
    + exists 0. cbn [fst snd firstn List.length].
      rewrite appended_nil. split; [lia |]. split; [reflexivity |].
      split; [reflexivity |]. split.
      * intros i row Hi. lia.
      * intros row Hrow. cbn in Hrow. injection Hrow as Hrow. subst row.
        exact He.
Qed.

(** C7, the claim fails: on a store whose Labels table has [url] as its
    key, a CSV that names "http://a.test" twice makes the second INSERT of
    the batch fail.  [process_labeled_data] raises, and the first row of
    the batch stays in the table: the batch is persisted neither whole nor
    not at all. *)
Lemma process_labeled_data_keeps_rows_before_failure :
  let o := process_labeled_data keyed_store repeated_csv in
  let before := rows (Labels keyed_store) in
  let batch := labeled_batch keyed_store repeated_csv in
  batch = repeated_csv /\
  raised o = Some IntegrityError /\
  rows (Labels (final o)) = before ++ [("http://a.test", "disaster")] /\
  rows (Labels (final o)) <> before /\
  rows (Labels (final o)) <> before ++ batch.
Proof.
  cbv zeta. repeat split; try reflexivity; discriminate.
Qed.

(** C7, amended: the batch goes through one [executemany] on a connection
    opened with [isolation_level=None], which persists each row as soon as
    its INSERT has executed.  Let row [k] be the first row of the batch
    whose INSERT fails, [k] being the length of the batch when none does.
    Each of the [k] rows before it is inserted into the table the rows
    before it have left, and all [k] stay in Labels; with [k] the whole
    batch the call returns, and otherwise the INSERT of row [k] is refused
    with [IntegrityError], that row and the rows after it are not
    inserted, and the error leaves [process_labeled_data].  Articles is
    not touched. *)
Theorem process_labeled_data_persists_batch_prefix
    (self : pipeline) (df : list (string * string)) :
  let o := process_labeled_data self df in
  let batch := labeled_batch self df in
  let table_after := fun i : nat => appended (Labels self) (firstn i batch) in
  exists k : nat,
    k <= List.length batch /\
    (forall (i : nat) (row : label_row),
       i < k -> nth_error batch i = Some row ->
       execute_insert fst (table_after i) row = inl (table_after (S i))) /\
    (forall row : label_row,
       nth_error batch k = Some row ->
       execute_insert fst (table_after k) row = inr IntegrityError) /\
    Labels (final o) = table_after k /\
    rows (Labels (final o)) = rows (Labels self) ++ firstn k batch /\
    Articles (final o) = Articles self /\
    emitted o = [] /\
    raised o = (if k <? List.length batch then Some IntegrityError else None).
Proof.
  cbv zeta. rewrite process_labeled_data_unfold. cbn [final raised emitted].
  destruct (executemany_insert_first_failure (labeled_batch self df) (Labels self))
    as (k & Hk & Hfst & Hsnd & Hbefore & Hat).
  exists k. cbn [with_labels Labels Articles].
  split; [exact Hk |]. split; [exact Hbefore |]. split; [exact Hat |].
  split; [exact Hfst |]. split; [rewrite Hfst; reflexivity |].
  split; [reflexivity |]. split; [reflexivity | exact Hsnd].
Qed.

(** ** Traces *)

Lemma submitted_app (out1 out2 : list event) :
  submitted (out1 ++ out2) = submitted out1 ++ submitted out2.
Proof.
  induction out1 as [| [line | u | a] rest IH]; cbn; rewrite ?IH; reflexivity.
Qed.

Lemma insert_calls_app (out1 out2 : list event) :
  insert_calls (out1 ++ out2) = insert_calls out1 ++ insert_calls out2.
Proof.
  induction out1 as [| [line | u | a] rest IH]; cbn; rewrite ?IH; reflexivity.
Qed.

Lemma submitted_map_Submit (urls : list string) :
  submitted (map Submit urls) = urls.
Proof.
  induction urls as [| u rest IH]; cbn; rewrite ?IH; reflexivity.
Qed.

Lemma insert_calls_map_Submit (urls : list string) :
  insert_calls (map Submit urls) = [].
Proof.
  induction urls as [| u rest IH]; cbn; rewrite ?IH; reflexivity.
Qed.

(** [insert_article] emits nothing or one printed line, and raises only
    after it has left the store alone. *)
Lemma insert_article_emitted (self : pipeline) (article : Article) :
  submitted (emitted (insert_article self article)) = [] /\
  insert_calls (emitted (insert_article self article)) = [].
Proof.
  unfold insert_article.
  destruct (execute_insert r_url (Articles self) (row_of_article article))
    as [t | []]; cbn; auto.
Qed.

(** ** The loop over the completed futures *)

Lemma handle_completed_trace (self : pipeline) (f : future) :
  submitted (snd (handle_completed self f)) = [] /\
  insert_calls (snd (handle_completed self f)) = articles_of [f].
Proof.
  destruct f as [u [a | | e]]; unfold handle_completed; cbn; auto.
  destruct (insert_article_emitted self a) as [Hs Hc].
  rewrite submitted_app, insert_calls_app, Hs, Hc.
  destruct (raised (insert_article self a)); cbn; auto.
Qed.

Lemma articles_of_cons (f : future) (fs : list future) :
  articles_of (f :: fs) = articles_of [f] ++ articles_of fs.
Proof.
  destruct f as [u [a | | e]]; reflexivity.
Qed.

Lemma drain_cons (self : pipeline) (f : future) (rest : list future) :
  drain self (f :: rest)
  = (fst (drain (fst (handle_completed self f)) rest),
     snd (handle_completed self f)
     ++ snd (drain (fst (handle_completed self f)) rest)).
Proof.
  cbn [drain]. destruct (handle_completed self f) as [self1 out1].
  cbn [fst snd]. destruct (drain self1 rest). reflexivity.
Qed.

Lemma drain_trace (completed : list future) :
  forall self : pipeline,
  submitted (snd (drain self completed)) = [] /\
  insert_calls (snd (drain self completed)) = articles_of completed.
Proof.
  induction completed as [| f rest IH]; intros self.
  - cbn. auto.
  - rewrite drain_cons. cbn [snd].
    rewrite submitted_app, insert_calls_app.
    destruct (handle_completed_trace self f) as [Hs Hc].
    destruct (IH (fst (handle_completed self f))) as [Hs' Hc'].
    rewrite Hs, Hc, Hs', Hc', (articles_of_cons f rest). auto.
Qed.


(** [process_urls] with its loop unfolded. *)
Lemma process_urls_unfold
    (scrape : string -> scrape_result) (as_completed : list future -> list future)
    (self : pipeline) (csv_urls : list string) :
  let urls := urls_to_scrape self csv_urls in
  let completed := as_completed (map (submit scrape) urls) in
  process_urls scrape as_completed self csv_urls
  = mkOutcome (fst (drain self completed))
              (map Submit urls ++ snd (drain self completed))
              None.
Proof.
  cbv zeta. unfold process_urls.
  destruct (drain self _). reflexivity.
Qed.

Lemma urls_to_scrape_In (self : pipeline) (csv_urls : list string) (u : string) :
  In u (urls_to_scrape self csv_urls)
  <-> In u csv_urls /\ ~ In u (select_url r_url (Articles self)).
Proof.
  unfold urls_to_scrape. rewrite filter_In, negb_true_iff, inb_false_iff.
  reflexivity.
Qed.






(** ** The order of completion *)

Lemma articles_of_Permutation (fs fs' : list future) :
  Permutation fs fs' -> Permutation (articles_of fs) (articles_of fs').
Proof.
  induction 1 as [| x l l' _ IH | x y l | l l' l'' _ IH1 _ IH2].
  - constructor.
  - destruct x as [u [a | | e]]; cbn; auto.
  - destruct x as [u [a | | e]], y as [v [b | | e']]; cbn;
      try apply perm_swap; apply Permutation_refl.
  - eapply Permutation_trans; eauto.
Qed.


Lemma count_articles_Permutation (u : string) (l l' : list Article) :
  Permutation l l' -> count_articles u l = count_articles u l'.
Proof.
  unfold count_articles.
  induction 1 as [| x l l' _ IH | x y l | l l' l'' _ IH1 _ IH2]; cbn.
  - reflexivity.
  - destruct (String.eqb (url x) u); cbn; rewrite IH; reflexivity.
  - destruct (String.eqb (url x) u), (String.eqb (url y) u); reflexivity.
  - congruence.
Qed.

(** ** What the loop does to the store *)

Lemma insert_article_appends (self : pipeline) (article : Article) :
  exists new : list article_row,
    rows (Articles (final (insert_article self article)))
    = rows (Articles self) ++ new /\
    unique_url (Articles (final (insert_article self article)))
    = unique_url (Articles self) /\
    Labels (final (insert_article self article)) = Labels self.
Proof.
  unfold insert_article.
  destruct (execute_insert_cases r_url (Articles self) (row_of_article article))
    as [[He _] | [He _]]; rewrite He; cbn.
  - exists [row_of_article article]. auto.
  - exists []. rewrite app_nil_r. auto.
Qed.

Lemma drain_appends (completed : list future) :
  forall self : pipeline,
  exists new : list article_row,
    rows (Articles (fst (drain self completed))) = rows (Articles self) ++ new /\
    unique_url (Articles (fst (drain self completed)))
    = unique_url (Articles self) /\
    Labels (fst (drain self completed)) = Labels self.
Proof.
  induction completed as [| f rest IH]; intros self.
  - exists []. cbn. rewrite app_nil_r. auto.
  - rewrite drain_cons. cbn [fst].
    destruct (IH (fst (handle_completed self f))) as (new & Hrows & Hu & Hl).
    rewrite Hrows, Hu, Hl. clear Hrows Hu Hl.
    destruct f as [u [a | | e]]; unfold handle_completed; cbn [fst snd].
    + destruct (insert_article_appends self a) as (new1 & Hrows1 & Hu1 & Hl1).
      exists (new1 ++ new). rewrite Hrows1, app_assoc. auto.
    + exists new. auto.
    + exists new. auto.
Qed.

(** On a table without the constraint every scraped article becomes a row,
    in the order of completion. *)
Lemma drain_unconstrained (completed : list future) :
  forall self : pipeline,
  unique_url (Articles self) = false ->
  rows (Articles (fst (drain self completed)))
  = rows (Articles self) ++ map row_of_article (articles_of completed).
Proof.
  induction completed as [| f rest IH]; intros self Hu.
  - cbn. rewrite app_nil_r. reflexivity.
  - rewrite drain_cons. cbn [fst].
    destruct f as [u [a | | e]]; unfold handle_completed; cbn [fst snd articles_of].
    + rewrite IH.
      * rewrite insert_article_unconstrained by exact Hu.
        cbn. rewrite <- app_assoc. reflexivity.
      * rewrite insert_article_unconstrained by exact Hu. reflexivity.
    + apply IH. exact Hu.
    + apply IH. exact Hu.
Qed.

Lemma count_url_app (u : string) (rs1 rs2 : list article_row) :
  count_url u (rs1 ++ rs2) = count_url u rs1 + count_url u rs2.
Proof.
  unfold count_url. rewrite filter_app, length_app. reflexivity.
Qed.

Lemma count_url_rows_of_articles (u : string) (l : list Article) :
  count_url u (map row_of_article l) = count_articles u l.
Proof.
  unfold count_url, count_articles.
  induction l as [| a rest IH]; cbn.
  - reflexivity.
  - destruct (String.eqb (url a) u); cbn; rewrite IH; reflexivity.
Qed.

(** A scraped article is stored by the end of the loop: its INSERT either
    succeeds or fails because its url is there already. *)
Lemma drain_stores_scraped (completed : list future) :
  forall (self : pipeline) (u : string) (a : Article),
  In (u, Scraped a) completed ->
  In (url a) (select_url r_url (Articles (fst (drain self completed)))).
Proof.
  induction completed as [| f rest IH]; intros self u a Hin.
  - destruct Hin.
  - rewrite drain_cons. cbn [fst]. destruct Hin as [Heq | Hin].
    + subst f. unfold handle_completed. cbn [fst snd].
      destruct (drain_appends rest (final (insert_article self a)))
        as (new & Hrows & _).
      unfold select_url. rewrite Hrows, map_app. apply in_or_app. left.
      unfold insert_article.
      destruct (execute_insert_cases r_url (Articles self) (row_of_article a))
        as [[He _] | [He [_ Hold]]]; rewrite He; cbn.
      * rewrite map_app. apply in_or_app. right. cbn. auto.
      * exact Hold.
    + eapply IH. exact Hin.
Qed.

Lemma drain_no_articles (completed : list future) :
  forall self : pipeline,
  articles_of completed = [] -> fst (drain self completed) = self.
Proof.
  induction completed as [| f rest IH]; intros self Hnone.
  - reflexivity.
  - rewrite drain_cons. cbn [fst].
    destruct f as [u [a | | e]]; cbn [articles_of] in Hnone;
      try discriminate; unfold handle_completed; cbn [fst snd]; apply IH;
      exact Hnone.
Qed.

Lemma no_articles_of_futures (scrape : string -> scrape_result) (urls : list string) :
  (forall u, In u urls -> forall a, scrape u <> Scraped a) ->
  articles_of (map (submit scrape) urls) = [].
Proof.
  induction urls as [| u rest IH]; intros Hno; [reflexivity |].
  cbn [map]. unfold submit at 1.
  destruct (scrape u) as [a | | e] eqn:Hu; cbn [articles_of].
  - exfalso. apply (Hno u (or_introl eq_refl) a). exact Hu.
  - apply IH. intros v Hv. apply Hno. right. exact Hv.
  - apply IH. intros v Hv. apply Hno. right. exact Hv.
Qed.

(** * [process_urls] *)

Section ProcessUrls.

Variable scrape : string -> scrape_result.
Variable as_completed : list future -> list future.

(** [as_completed] yields every future it is given, once. *)
Hypothesis as_completed_permutes :
  forall fs : list future, Permutation (as_completed fs) fs.




(** C5: the scrape tasks [process_urls] hands to the executor are the
    urls of the CSV column that are not in Articles when it is called,
    in CSV order; so a url is dispatched if and only if it is in the CSV
    and not stored, and no stored url is ever dispatched. *)
Theorem process_urls_dispatches_exactly_new_urls
    (self : pipeline) (csv_urls : list string) :
  let o := process_urls scrape as_completed self csv_urls in
  submitted (emitted o)
  = filter (fun u => negb (inb u (select_url r_url (Articles self)))) csv_urls /\
  forall u : string,
    In u (submitted (emitted o))
    <-> In u csv_urls /\ ~ In u (select_url r_url (Articles self)).
Proof.
  cbv zeta. rewrite process_urls_unfold. cbn [emitted].
  rewrite submitted_app, submitted_map_Submit.
  destruct (drain_trace
              (as_completed
                 (map (submit scrape) (urls_to_scrape self csv_urls)))
              self) as [Hs _].
  rewrite Hs, app_nil_r. split.
  - reflexivity.
  - intros u. apply urls_to_scrape_In.
Qed.


Lemma urls_to_scrape_all_stored (self : pipeline) (csv_urls : list string) :
  (forall u, In u csv_urls -> In u (select_url r_url (Articles self))) ->
  urls_to_scrape self csv_urls = [].
Proof.
  unfold urls_to_scrape. induction csv_urls as [| u rest IH]; intros Hall.
  - reflexivity.
  - cbn [filter].
    assert (Hu : inb u (select_url r_url (Articles self)) = true)
      by (apply inb_true_iff, Hall; left; reflexivity).
    rewrite Hu. cbn [negb]. apply IH. intros v Hv. apply Hall. right. exact Hv.
Qed.

Lemma as_completed_nil : as_completed [] = [].
Proof.
  apply Permutation_nil, Permutation_sym, as_completed_permutes.
Qed.

(** C9: whichever operation runs, the rows of Articles and of Labels that
    were stored before it are still there, unchanged and in place, with
    any new rows after them; and constructing the pipeline again on the
    file of a store gives that store back. *)
Theorem operations_only_append (op : operation) (self : pipeline) :
  let after := run scrape as_completed op self in
  (exists new, rows (Articles after) = rows (Articles self) ++ new) /\
  (exists new, rows (Labels after) = rows (Labels self) ++ new) /\
  run scrape as_completed Construct self = self.
Proof.
  cbv zeta.
  assert (Hinit : init (persisted self) = self) by (destruct self; reflexivity).
  split; [| split; [| exact Hinit]].
  - destruct op as [| a | csv_urls | df |]; cbn [run].
    + rewrite Hinit. exists []. now rewrite app_nil_r.
    + destruct (insert_article_appends self a) as (new & Hrows & _).
      exists new. exact Hrows.
    + rewrite process_urls_unfold. cbn [final].
      destruct (drain_appends
                  (as_completed
                     (map (submit scrape) (urls_to_scrape self csv_urls))) self)
        as (new & Hrows & _).
      exists new. exact Hrows.
    + rewrite process_labeled_data_unfold. cbn.
      exists []. now rewrite app_nil_r.
    + exists []. now rewrite app_nil_r.
  - destruct op as [| a | csv_urls | df |]; cbn [run].
    + rewrite Hinit. exists []. now rewrite app_nil_r.
    + destruct (insert_article_appends self a) as (new & _ & _ & Hl).
      rewrite Hl. exists []. now rewrite app_nil_r.
    + rewrite process_urls_unfold. cbn [final].
      destruct (drain_appends
                  (as_completed
                     (map (submit scrape) (urls_to_scrape self csv_urls))) self)
        as (new & _ & _ & Hl).
      rewrite Hl. exists []. now rewrite app_nil_r.
    + rewrite process_labeled_data_unfold. cbn [final with_labels Labels].
      destruct (executemany_insert_prefix (labeled_batch self df) (Labels self))
        as (k & _ & Hrows & _).
      exists (firstn k (labeled_batch self df)). exact Hrows.
    + exists []. now rewrite app_nil_r.
Qed.

Lemma count_occ_urls_to_scrape (self : pipeline) (csv_urls : list string) (u : string) :
  ~ In u (select_url r_url (Articles self)) ->
  count_occ string_dec (urls_to_scrape self csv_urls) u
  = count_occ string_dec csv_urls u.
Proof.
  intros Hnew. unfold urls_to_scrape.
  induction csv_urls as [| v rest IH]; [reflexivity |].
  cbn [filter count_occ].
  destruct (string_dec v u) as [Heq | Hne].
  - subst v. apply inb_false_iff in Hnew. rewrite Hnew. cbn [negb count_occ].
    destruct (string_dec u u) as [_ | Hne]; [| contradiction].
    rewrite IH. reflexivity.
  - destruct (negb (inb v (select_url r_url (Articles self)))); [| exact IH].
    cbn [count_occ]. destruct (string_dec v u); [contradiction | exact IH].
Qed.

Lemma count_articles_of_futures (urls : list string) (u : string) (a : Article) :
  scrape u = Scraped a ->
  count_occ string_dec urls u
  <= count_articles (url a) (articles_of (map (submit scrape) urls)).
Proof.
  intros Hu. unfold count_articles.
  induction urls as [| v rest IH]; [cbn; lia |].
  cbn [map count_occ]. destruct (string_dec v u) as [Heq | Hne].
  - subst v. unfold submit at 1. rewrite Hu. cbn [articles_of filter].
    rewrite String.eqb_refl. cbn [List.length]. lia.
  - unfold submit at 1. destruct (scrape v) as [b | | e]; cbn [articles_of filter];
      try exact IH.
    destruct (String.eqb (url b) (url a)); cbn [List.length]; lia.
Qed.

(** C10: a url that is not stored and appears [k] times in the CSV column
    is dispatched [k] times; and when its scrape yields an article and the
    Articles table has no uniqueness constraint, as [__init__] creates it,
    the run adds at least [k] rows with that article's url. *)
Theorem process_urls_dispatches_repeated_urls
    (self : pipeline) (csv_urls : list string) (u : string) (a : Article) :
  ~ In u (select_url r_url (Articles self)) ->
  scrape u = Scraped a ->
  unique_url (Articles self) = false ->
  let o := process_urls scrape as_completed self csv_urls in
  let k := count_occ string_dec csv_urls u in
  count_occ string_dec (submitted (emitted o)) u = k /\
  count_occ string_dec (map url (insert_calls (emitted o))) (url a) >= k /\
  count_url (url a) (rows (Articles (final o)))
  >= count_url (url a) (rows (Articles self)) + k.
Proof.
  intros Hnew Hu Hfree. cbv zeta.
  rewrite process_urls_unfold. cbn [emitted final].
  set (urls := urls_to_scrape self csv_urls).
  pose proof (as_completed_permutes (map (submit scrape) urls)) as Hperm.
  destruct (drain_trace (as_completed (map (submit scrape) urls)) self)
    as [Hs Hc].
  rewrite submitted_app, insert_calls_app, submitted_map_Submit,
    insert_calls_map_Submit, Hs, Hc, app_nil_r.
  cbn [app].
  pose proof (@count_occ_urls_to_scrape self csv_urls u Hnew) as Hk.
  fold urls in Hk.
  pose proof (@count_articles_of_futures urls u a Hu) as Hle.
  rewrite <- (count_articles_Permutation (url a)
                (articles_of_Permutation Hperm)) in Hle.
  split; [exact Hk |]. split.
  - rewrite <- Hk.
    assert (Hcount : forall l : list Article,
               count_occ string_dec (map url l) (url a)
               = count_articles (url a) l).
    { unfold count_articles. induction l as [| b rest IH]; [reflexivity |].
      cbn [map count_occ filter].
      destruct (string_dec (url b) (url a)) as [Heq | Hne].
      - rewrite Heq, String.eqb_refl. cbn [List.length]. now rewrite IH.
      - apply String.eqb_neq in Hne. rewrite Hne. exact IH. }
    rewrite Hcount. exact Hle.
  - rewrite drain_unconstrained by exact Hfree.
    rewrite count_url_app, count_url_rows_of_articles. lia.
Qed.

(** X16: a second run of [process_urls] with the same CSV leaves the store
    as the first run left it and calls [insert_article] not once, also
    when the first run left urls unstored, as long as the scraper answers
    a url as it did before and files an article under the url it was asked
    for: the urls still missing are those whose scrape gave no article,
    and it gives none again. *)
Lemma process_urls_rerun_same_scraper (self : pipeline) (csv_urls : list string) :
  (forall u a, scrape u = Scraped a -> url a = u) ->
  let after := final (process_urls scrape as_completed self csv_urls) in
  let again := process_urls scrape as_completed after csv_urls in
  final again = after /\ insert_calls (emitted again) = [].
Proof.
  intros Hkeeps. cbv zeta.
  set (after := final (process_urls scrape as_completed self csv_urls)).
  assert (Hnone : articles_of
                    (as_completed
                       (map (submit scrape) (urls_to_scrape after csv_urls))) = []).
  { apply Permutation_nil, Permutation_sym.
    eapply Permutation_trans;
      [apply articles_of_Permutation, as_completed_permutes |].
    rewrite no_articles_of_futures; [constructor |].
    intros u Hin a Hu. apply urls_to_scrape_In in Hin. destruct Hin as [Hcsv Hnot].
    apply Hnot. unfold after. rewrite process_urls_unfold. cbn [final].
    rewrite <- (Hkeeps u a Hu). apply drain_stores_scraped with (u := u).
    apply Permutation_in with (l := map (submit scrape) (urls_to_scrape self csv_urls)).
    - apply Permutation_sym, as_completed_permutes.
    - apply in_map_iff. exists u. unfold submit. rewrite Hu. split; [reflexivity |].
      apply urls_to_scrape_In. split; [exact Hcsv |].
      intros Hold. apply Hnot. unfold after. rewrite process_urls_unfold.
      cbn [final]. unfold select_url in *.
      destruct (drain_appends
                  (as_completed
                     (map (submit scrape) (urls_to_scrape self csv_urls))) self)
        as (new & Hrows & _).
      rewrite Hrows, map_app. apply in_or_app. left. exact Hold. }
  rewrite (process_urls_unfold scrape as_completed after csv_urls).
  cbn [final emitted]. split.
  - apply drain_no_articles. exact Hnone.
  - rewrite insert_calls_app, insert_calls_map_Submit.
    destruct (drain_trace
                (as_completed
                   (map (submit scrape) (urls_to_scrape after csv_urls))) after)
      as [_ Hc].
    rewrite Hc, Hnone. reflexivity.
Qed.






End ProcessUrls.

(** * The theorems at concrete stores *)

Lemma in_submission_order_permutes :
  forall fs : list future, Permutation (in_submission_order fs) fs.
Proof.
  intros fs. apply Permutation_refl.
Defined.

Lemma in_reverse_order_permutes :
  forall fs : list future, Permutation (in_reverse_order fs) fs.
Proof.
  intros fs. apply Permutation_sym, Permutation_rev.
Defined.




(** A CSV that names "http://a.test" twice, into a new store: two scrape
    tasks for it, two calls of [insert_article], two rows with its url. *)
Lemma process_urls_dispatches_repeated_urls_witness :
  let u := "http://a.test" in
  let a := sample_article u ("text of " ++ u) in
  let o := process_urls scrape_all in_reverse_order fresh_store repeated_urls in
  ~ In u (select_url r_url (Articles fresh_store)) /\
  scrape_all u = Scraped a /\
  unique_url (Articles fresh_store) = false /\
  count_occ string_dec (submitted (emitted o)) u = 2 /\
  count_occ string_dec (map url (insert_calls (emitted o))) (url a) >= 2 /\
  count_url (url a) (rows (Articles (final o))) >= 0 + 2.
Proof.
  cbv zeta.
  assert (Hnew : ~ In "http://a.test" (select_url r_url (Articles fresh_store)))
    by (intros []).
  split; [exact Hnew |]. split; [reflexivity |]. split; [reflexivity |].
  exact (@process_urls_dispatches_repeated_urls scrape_all in_reverse_order
           in_reverse_order_permutes fresh_store repeated_urls "http://a.test"
           (sample_article "http://a.test" ("text of " ++ "http://a.test"))
           Hnew eq_refl eq_refl).
Defined.

(** The scenario of the specification: both urls scrape, the table has two
    rows, and it still has two after a second run. *)
Example two_urls_twice :
  let csv := ["http://a.test"; "http://b.test"] in
  let once := final (process_urls scrape_all in_submission_order fresh_store csv) in
  let twice := final (process_urls scrape_all in_submission_order once csv) in
  List.length (rows (Articles once)) = 2 /\
  List.length (rows (Articles twice)) = 2.
Proof.
  cbv zeta. split; reflexivity.
Qed.

(** * Further properties of the store operations *)

(** ** [insert_article] and the dedup filter *)

(** X1: After [insert_article] the url of the article is among the urls
    [SELECT url FROM Articles] returns, whether the INSERT went through or
    met the uniqueness violation; so the filter of [process_urls] drops
    that url from any CSV column from then on. *)
Theorem insert_article_then_url_is_stored (self : pipeline) (article : Article) :
  In (url article)
     (select_url r_url (Articles (final (insert_article self article)))) /\
  forall csv_urls : list string,
    ~ In (url article)
         (urls_to_scrape (final (insert_article self article)) csv_urls).
Proof.
  assert (Hin : In (url article)
                   (select_url r_url
                      (Articles (final (insert_article self article))))).
  { unfold insert_article, select_url.
    destruct (execute_insert_cases r_url (Articles self) (row_of_article article))
      as [[He _] | [He [_ Hold]]]; rewrite He; cbn.
    - rewrite map_app. apply in_or_app. right. cbn. auto.
    - exact Hold. }
  split; [exact Hin |].
  intros csv_urls Hdisp. apply urls_to_scrape_In in Hdisp.
  destruct Hdisp as [_ Hnot]. apply Hnot. exact Hin.
Qed.

(** ** [row_of_article] *)



(** ** [process_labeled_data] on a table without the constraint *)

Lemma combine_map_fst_snd (A B : Type) (l : list (A * B)) :
  combine (map fst l) (map snd l) = l.
Proof.
  induction l as [| [a b] rest IH]; cbn; [reflexivity | now rewrite IH].
Qed.

Lemma map_fst_combine (A B : Type) (l1 : list A) :
  forall l2 : list B,
  List.length l1 <= List.length l2 -> map fst (combine l1 l2) = l1.
Proof.
  induction l1 as [| a rest IH]; intros [| b l2] Hlen; cbn in *;
    try reflexivity; try lia.
  rewrite IH by lia. reflexivity.
Qed.

Lemma filter_all (A : Type) (f : A -> bool) (l : list A) :
  (forall x, In x l -> f x = true) -> filter f l = l.
Proof.
  induction l as [| x rest IH]; intros Hall; cbn; [reflexivity |].
  rewrite (Hall x (or_introl eq_refl)), IH; [reflexivity |].
  intros y Hy. apply Hall. right. exact Hy.
Qed.

Lemma filter_none (A : Type) (f : A -> bool) (l : list A) :
  (forall x, In x l -> f x = false) -> filter f l = [].
Proof.
  induction l as [| x rest IH]; intros Hall; cbn; [reflexivity |].
  rewrite (Hall x (or_introl eq_refl)). apply IH.
  intros y Hy. apply Hall. right. exact Hy.
Qed.

(** The urls of the batch are the CSV urls that are not labelled yet, in
    CSV order: the label list is never shorter than the filtered url list,
    so [zip] drops no url. *)
Lemma labeled_batch_urls (self : pipeline) (df : list (string * string)) :
  map fst (labeled_batch self df)
  = filter (fun u => negb (inb u (select_url fst (Labels self)))) (map fst df).
Proof.
  unfold labeled_batch. apply map_fst_combine.
  rewrite (length_map snd df), <- (length_map fst df).
  apply filter_length_le.
Qed.

Lemma process_labeled_data_unconstrained
    (self : pipeline) (df : list (string * string)) :
  unique_url (Labels self) = false ->
  process_labeled_data self df
  = mkOutcome
      (with_labels self
         {| unique_url := false;
            rows := rows (Labels self) ++ labeled_batch self df |})
      [] None.
Proof.
  intros Hfree. rewrite process_labeled_data_unfold.
  rewrite executemany_insert_unconstrained by exact Hfree. reflexivity.
Qed.

(** X3: When no url of the CSV is labelled yet and the Labels table has no
    uniqueness constraint, [process_labeled_data] appends the rows of the
    CSV as they are, in order, and returns. *)
Theorem process_labeled_data_first_ingestion
    (self : pipeline) (df : list (string * string)) :
  unique_url (Labels self) = false ->
  (forall u, In u (map fst df) -> ~ In u (select_url fst (Labels self))) ->
  rows (Labels (final (process_labeled_data self df))) = rows (Labels self) ++ df /\
  raised (process_labeled_data self df) = None.
Proof.
  intros Hfree Hnew.
  rewrite process_labeled_data_unconstrained by exact Hfree.
  cbn [final raised with_labels Labels rows]. split; [| reflexivity].
  f_equal. unfold labeled_batch. rewrite filter_all.
  - apply combine_map_fst_snd.
  - intros u Hu. apply negb_true_iff, inb_false_iff, Hnew. exact Hu.
Qed.

(** X4: On a Labels table without the constraint, the urls that get a new row
    are the CSV urls not labelled before, once for each time the CSV names
    them: a url that is new and named [k] times gets [k] rows in one run. *)
Theorem process_labeled_data_inserts_unlabelled_urls
    (self : pipeline) (df : list (string * string)) (u : string) :
  unique_url (Labels self) = false ->
  let after := final (process_labeled_data self df) in
  select_url fst (Labels after)
  = select_url fst (Labels self)
    ++ filter (fun v => negb (inb v (select_url fst (Labels self)))) (map fst df) /\
  (~ In u (select_url fst (Labels self)) ->
   count_occ string_dec (select_url fst (Labels after)) u
   = count_occ string_dec (map fst df) u).
Proof.
  intros Hfree. cbv zeta.
  rewrite process_labeled_data_unconstrained by exact Hfree.
  cbn [final with_labels Labels].
  assert (Hurls :
            select_url fst
              {| unique_url := false;
                 rows := rows (Labels self) ++ labeled_batch self df |}
            = select_url fst (Labels self)
              ++ filter (fun v => negb (inb v (select_url fst (Labels self))))
                   (map fst df)).
  { unfold select_url at 1 2. cbn [rows].
    rewrite map_app, labeled_batch_urls. reflexivity. }
  rewrite Hurls. split; [reflexivity |].
  intros Hnew. rewrite count_occ_app.
  rewrite (proj1 (count_occ_not_In string_dec _ u) Hnew). cbn [plus].
  apply inb_false_iff in Hnew. clear Hurls.
  induction (map fst df) as [| v rest IH]; [reflexivity |].
  cbn [filter count_occ]. destruct (string_dec v u) as [Heq | Hne].
  - subst v. unfold select_url in *. rewrite Hnew. cbn [negb count_occ].
    destruct (string_dec u u); [| contradiction]. now rewrite IH.
  - destruct (negb _); [| exact IH].
    cbn [count_occ]. destruct (string_dec v u); [contradiction | exact IH].
Qed.

(** X5: On a Labels table without the constraint, running
    [process_labeled_data] again with the same CSV inserts nothing: after
    the first run every url of the CSV is labelled, so the second batch is
    empty and the store is left as the first run left it. *)
Theorem process_labeled_data_rerun_inserts_nothing
    (self : pipeline) (df : list (string * string)) :
  unique_url (Labels self) = false ->
  let after := final (process_labeled_data self df) in
  process_labeled_data after df = mkOutcome after [] None.
Proof.
  intros Hfree. cbv zeta.
  rewrite (process_labeled_data_unconstrained self df Hfree). cbn [final].
  set (after := with_labels self _).
  assert (Hbatch : labeled_batch after df = []).
  { unfold labeled_batch. rewrite filter_none; [reflexivity |].
    intros u Hu. apply negb_false_iff, inb_true_iff.
    unfold after, select_url. cbn [Labels with_labels rows].
    rewrite map_app. apply in_or_app.
    destruct (inb u (select_url fst (Labels self))) eqn:Hold.
    - left. apply inb_true_iff in Hold. exact Hold.
    - right. rewrite labeled_batch_urls. apply filter_In. split; [exact Hu |].
      rewrite Hold. reflexivity. }
  rewrite process_labeled_data_unfold, Hbatch. cbn. reflexivity.
Qed.

(** ** [get_training_data] and the join *)

(** X8: The first array [get_training_data] returns holds the categories of
    the join: a category is in it exactly when Labels has a row with that
    category whose url is the url of some row of Articles.  Labels of urls
    without an article are left out. *)
Theorem get_training_data_labels (self : pipeline) :
  exists ls : list string,
    first (get_training_data self) = Array1 ls /\
    forall l : string,
      In l ls <->
      exists u : string,
        In u (select_url r_url (Articles self)) /\ In (u, l) (rows (Labels self)).
Proof.
  exists (map snd (inner_join (Articles self) (Labels self))).
  split; [reflexivity |].
  intros l. unfold inner_join, select_url. rewrite in_map_iff. split.
  - intros [[c l'] [Heq Hin]]. cbn in Heq. subst l'.
    apply in_flat_map in Hin. destruct Hin as [ar [Har Hin]].
    apply in_map_iff in Hin. destruct Hin as [[u l'] [Heq Hin]].
    apply filter_In in Hin. destruct Hin as [Hlr Hurl].
    cbn in Heq, Hurl. injection Heq as _ Hl. subst l'.
    apply String.eqb_eq in Hurl. subst u.
    exists (r_url ar). split; [apply in_map; exact Har | exact Hlr].
  - intros [u [Hu Hlr]]. apply in_map_iff in Hu. destruct Hu as [ar [Hurl Har]].
    exists (r_content ar, l). split; [reflexivity |].
    apply in_flat_map. exists ar. split; [exact Har |].
    apply in_map_iff. exists (u, l). split; [reflexivity |].
    apply filter_In. split; [exact Hlr |]. cbn. apply String.eqb_eq. exact Hurl.
Qed.

(** ** A duplicate inside the loop of [process_urls] *)

(** X9: When a completed future carries an article whose url the keyed
    Articles table already holds, the loop prints the title, calls
    [insert_article], prints the [AttributeError] that leaves it, and goes
    on with the remaining futures on the unchanged store. *)
Theorem drain_reports_duplicate_and_goes_on
    (self : pipeline) (u : string) (a : Article) (rest : list future) :
  unique_url (Articles self) = true ->
  In (url a) (select_url r_url (Articles self)) ->
  drain self ((u, Scraped a) :: rest)
  = (fst (drain self rest),
     [Printed (title a); CallInsert a;
      Printed "Exception: 'URLArticlePipelineSQL' object has no attribute 'url'"]
     ++ snd (drain self rest)).
Proof.
  intros Hkey Hold. rewrite drain_cons. unfold handle_completed. cbn [fst snd].
  rewrite (insert_article_duplicate_raises self a Hkey Hold). reflexivity.
Qed.

Lemma drain_reports_duplicate_and_goes_on_witness :
  let dup := sample_article "http://a.test" "flood text, again" in
  let rest := [("http://b.test", scrape_all "http://b.test")] in
  unique_url (Articles keyed_store_with_a) = true /\
  In (url dup) (select_url r_url (Articles keyed_store_with_a)) /\
  drain keyed_store_with_a (("http://a.test", Scraped dup) :: rest)
  = (fst (drain keyed_store_with_a rest),
     [Printed (title dup); CallInsert dup;
      Printed "Exception: 'URLArticlePipelineSQL' object has no attribute 'url'"]
     ++ snd (drain keyed_store_with_a rest)) /\
  List.length (rows (Articles (fst (drain keyed_store_with_a rest)))) = 2.
Proof.
  cbv zeta.
  assert (Hold : In "http://a.test" (select_url r_url (Articles keyed_store_with_a)))
    by (left; reflexivity).
  split; [reflexivity |]. split; [exact Hold |]. split; [| reflexivity].
  exact (@drain_reports_duplicate_and_goes_on keyed_store_with_a "http://a.test"
           (sample_article "http://a.test" "flood text, again")
           [("http://b.test", scrape_all "http://b.test")] eq_refl Hold).
Defined.

(** ** The keyed table keeps its urls distinct *)

Lemma insert_article_keeps_urls_distinct (self : pipeline) (a : Article) :
  unique_url (Articles self) = true ->
  NoDup (select_url r_url (Articles self)) ->
  unique_url (Articles (final (insert_article self a))) = true /\
  NoDup (select_url r_url (Articles (final (insert_article self a)))).
Proof.
  intros Hkey Hnodup. unfold insert_article, select_url in *.
  destruct (execute_insert_cases r_url (Articles self) (row_of_article a))
    as [[He [Hfree | Hnew]] | [He _]]; rewrite He; cbn.
  - congruence.
  - split; [exact Hkey |]. rewrite map_app. cbn [map].
    eapply Permutation_NoDup; [apply Permutation_cons_append |].
    constructor; assumption.
  - split; assumption.
Qed.

Lemma drain_keeps_urls_distinct (completed : list future) :
  forall self : pipeline,
  unique_url (Articles self) = true ->
  NoDup (select_url r_url (Articles self)) ->
  NoDup (select_url r_url (Articles (fst (drain self completed)))).
Proof.
  induction completed as [| f rest IH]; intros self Hkey Hnodup.
  - exact Hnodup.
  - rewrite drain_cons. cbn [fst].
    destruct f as [u [a | | e]]; unfold handle_completed; cbn [fst snd].
    + destruct (insert_article_keeps_urls_distinct self a Hkey Hnodup)
        as [Hkey' Hnodup'].
      apply IH; assumption.
    + apply IH; assumption.
    + apply IH; assumption.
Qed.

(** * Further properties of [process_urls] *)

Section ProcessUrlsFurther.

Variable scrape : string -> scrape_result.
Variable as_completed : list future -> list future.

Hypothesis as_completed_permutes :
  forall fs : list future, Permutation (as_completed fs) fs.

Lemma articles_count (urls : list string) :
  List.length (articles_of (map (submit scrape) urls))
  = List.length (filter (fun u => scrape_returns_article (scrape u)) urls).
Proof.
  induction urls as [| u rest IH]; [reflexivity |].
  cbn [map filter]. unfold submit at 1.
  destruct (scrape u) as [a | | e]; cbn; rewrite ?IH; reflexivity.
Qed.

(** X10: Each operation writes to one table at most: [insert_article] and
    [process_urls] leave Labels as it was, [process_labeled_data] leaves
    Articles as it was, and [__init__] on an existing store and
    [get_training_data] leave the whole store as it was. *)
Theorem operations_touch_one_table (op : operation) (self : pipeline) :
  let after := run scrape as_completed op self in
  match op with
  | InsertArticle _ | ProcessURLs _ => Labels after = Labels self
  | ProcessLabeledData _ => Articles after = Articles self
  | Construct | GetTrainingData => after = self
  end.
Proof.
  cbv zeta. destruct op as [| a | csv_urls | df |]; cbn [run].
  - destruct self; reflexivity.
  - destruct (insert_article_appends self a) as (new & _ & _ & Hl). exact Hl.
  - rewrite process_urls_unfold. cbn [final].
    destruct (drain_appends
                (as_completed (map (submit scrape) (urls_to_scrape self csv_urls)))
                self) as (new & _ & _ & Hl).
    exact Hl.
  - rewrite process_labeled_data_unfold. reflexivity.
  - reflexivity.
Qed.

(** X11: An empty url column: nothing is dispatched, nothing is printed, and
    the store is left as it was. *)
Theorem process_urls_empty_csv (self : pipeline) :
  process_urls scrape as_completed self [] = mkOutcome self [] None.
Proof.
  rewrite process_urls_unfold. cbn [urls_to_scrape filter map].
  rewrite (Permutation_nil (Permutation_sym (as_completed_permutes []))).
  reflexivity.
Qed.


(** X13: After [process_urls], the url of every article a dispatched scrape
    returned is in Articles, on a keyed table as on one without the
    constraint. *)
Theorem process_urls_stores_scraped_urls
    (self : pipeline) (csv_urls : list string) (u : string) (a : Article) :
  In u csv_urls ->
  ~ In u (select_url r_url (Articles self)) ->
  scrape u = Scraped a ->
  In (url a)
     (select_url r_url
        (Articles (final (process_urls scrape as_completed self csv_urls)))).
Proof.
  intros Hcsv Hnew Hu. rewrite process_urls_unfold. cbn [final].
  apply drain_stores_scraped with (u := u).
  apply Permutation_in
    with (l := map (submit scrape) (urls_to_scrape self csv_urls)).
  - apply Permutation_sym, as_completed_permutes.
  - apply in_map_iff. exists u. unfold submit. rewrite Hu.
    split; [reflexivity |]. apply urls_to_scrape_In. auto.
Qed.

(** X14: On an Articles table keyed on url whose urls are distinct,
    [process_urls] leaves the urls distinct, whatever the CSV repeats and
    whatever urls the scraper files its articles under. *)
Theorem process_urls_keeps_urls_distinct
    (self : pipeline) (csv_urls : list string) :
  unique_url (Articles self) = true ->
  NoDup (select_url r_url (Articles self)) ->
  NoDup (select_url r_url
           (Articles (final (process_urls scrape as_completed self csv_urls)))).
Proof.
  intros Hkey Hnodup. rewrite process_urls_unfold. cbn [final].
  apply drain_keeps_urls_distinct; assumption.
Qed.

(** X15: On an Articles table without the constraint, the rows [process_urls]
    adds are the rows of the scraped articles, one for each dispatched url
    whose scrape returned an article. *)
Theorem process_urls_adds_one_row_per_article
    (self : pipeline) (csv_urls : list string) :
  unique_url (Articles self) = false ->
  let urls := urls_to_scrape self csv_urls in
  let o := process_urls scrape as_completed self csv_urls in
  exists new : list article_row,
    rows (Articles (final o)) = rows (Articles self) ++ new /\
    Permutation new (map row_of_article (articles_of (map (submit scrape) urls))) /\
    List.length new
    = List.length (filter (fun u => scrape_returns_article (scrape u)) urls).
Proof.
  intros Hfree. cbv zeta. rewrite process_urls_unfold. cbn [final].
  set (urls := urls_to_scrape self csv_urls).
  pose proof (articles_of_Permutation
                (as_completed_permutes (map (submit scrape) urls))) as Hperm.
  exists (map row_of_article
            (articles_of (as_completed (map (submit scrape) urls)))).
  split; [apply drain_unconstrained; exact Hfree |].
  split; [apply Permutation_map; exact Hperm |].
  rewrite length_map, (Permutation_length Hperm). apply articles_count.
Qed.

End ProcessUrlsFurther.

(** * The further properties at concrete stores *)

Lemma process_labeled_data_first_ingestion_witness :
  unique_url (Labels fresh_store) = false /\
  (forall u, In u (map fst labelled_csv) ->
             ~ In u (select_url fst (Labels fresh_store))) /\
  rows (Labels (final (process_labeled_data fresh_store labelled_csv)))
  = rows (Labels fresh_store) ++ labelled_csv /\
  raised (process_labeled_data fresh_store labelled_csv) = None.
Proof.
  assert (Hnew : forall u, In u (map fst labelled_csv) ->
                           ~ In u (select_url fst (Labels fresh_store)))
    by (intros u _ []).
  split; [reflexivity |]. split; [exact Hnew |].
  exact (@process_labeled_data_first_ingestion fresh_store labelled_csv
           eq_refl Hnew).
Defined.

Lemma process_labeled_data_inserts_unlabelled_urls_witness :
  let after := final (process_labeled_data fresh_store three_labels) in
  unique_url (Labels fresh_store) = false /\
  ~ In "http://a.test" (select_url fst (Labels fresh_store)) /\
  select_url fst (Labels after)
  = ["http://a.test"; "http://b.test"; "http://a.test"] /\
  count_occ string_dec (select_url fst (Labels after)) "http://a.test" = 2.
Proof.
  cbv zeta.
  assert (Hnew : ~ In "http://a.test" (select_url fst (Labels fresh_store)))
    by (intros []).
  split; [reflexivity |]. split; [exact Hnew |].
  destruct (@process_labeled_data_inserts_unlabelled_urls fresh_store
              three_labels "http://a.test" eq_refl) as [Hurls Hcount].
  split; [exact Hurls | exact (Hcount Hnew)].
Defined.

Lemma process_labeled_data_rerun_inserts_nothing_witness :
  let after := final (process_labeled_data labelled_store three_labels) in
  unique_url (Labels labelled_store) = false /\
  List.length (rows (Labels after)) = 2 /\
  process_labeled_data after three_labels = mkOutcome after [] None.
Proof.
  cbv zeta. split; [reflexivity |]. split; [reflexivity |].
  exact (@process_labeled_data_rerun_inserts_nothing labelled_store three_labels
           eq_refl).
Defined.

Lemma process_urls_empty_csv_witness :
  process_urls scrape_all in_reverse_order keyed_store_with_a []
  = mkOutcome keyed_store_with_a [] None.
Proof.
  exact (@process_urls_empty_csv scrape_all in_reverse_order
           in_reverse_order_permutes keyed_store_with_a).
Defined.


Lemma process_urls_stores_scraped_urls_witness :
  let a := sample_article "http://c.test" "text of http://c.test" in
  In "http://c.test" sample_urls /\
  ~ In "http://c.test" (select_url r_url (Articles fresh_store)) /\
  scrape_but "http://b.test" "http://c.test" = Scraped a /\
  In (url a)
     (select_url r_url
        (Articles
           (final (process_urls (scrape_but "http://b.test") in_reverse_order
                     fresh_store sample_urls)))).
Proof.
  cbv zeta.
  assert (Hcsv : In "http://c.test" sample_urls)
    by (right; right; left; reflexivity).
  assert (Hnew : ~ In "http://c.test" (select_url r_url (Articles fresh_store)))
    by (intros []).
  split; [exact Hcsv |]. split; [exact Hnew |]. split; [reflexivity |].
  exact (@process_urls_stores_scraped_urls (scrape_but "http://b.test")
           in_reverse_order in_reverse_order_permutes fresh_store sample_urls
           "http://c.test" (sample_article "http://c.test" "text of http://c.test")
           Hcsv Hnew eq_refl).
Defined.

Lemma process_urls_keeps_urls_distinct_witness :
  let o := process_urls scrape_all in_submission_order keyed_store repeated_urls in
  unique_url (Articles keyed_store) = true /\
  NoDup (select_url r_url (Articles keyed_store)) /\
  submitted (emitted o) = repeated_urls /\
  NoDup (select_url r_url (Articles (final o))).
Proof.
  cbv zeta.
  assert (Hnodup : NoDup (select_url r_url (Articles keyed_store)))
    by constructor.
  split; [reflexivity |]. split; [exact Hnodup |]. split; [reflexivity |].
  exact (@process_urls_keeps_urls_distinct scrape_all in_submission_order
           keyed_store repeated_urls eq_refl Hnodup).
Defined.

Lemma process_urls_adds_one_row_per_article_witness :
  let o := process_urls scrape_some in_reverse_order fresh_store sample_urls in
  unique_url (Articles fresh_store) = false /\
  exists new : list article_row,
    rows (Articles (final o)) = rows (Articles fresh_store) ++ new /\
    Permutation new
      [row_of_article (sample_article "http://a.test" "text of http://a.test")] /\
    List.length new = 1.
Proof.
  cbv zeta. split; [reflexivity |].
  exact (@process_urls_adds_one_row_per_article scrape_some in_reverse_order
           in_reverse_order_permutes fresh_store sample_urls eq_refl).
Defined.

Lemma process_urls_rerun_same_scraper_witness :
  let scrape := scrape_but "http://b.test" in
  let after := final (process_urls scrape in_reverse_order fresh_store sample_urls) in
  let again := process_urls scrape in_reverse_order after sample_urls in
  (forall u a, scrape u = Scraped a -> url a = u) /\
  submitted (emitted again) = ["http://b.test"] /\
  final again = after /\ insert_calls (emitted again) = [].
Proof.
  cbv zeta.
  assert (Hkeeps : forall u a, scrape_but "http://b.test" u = Scraped a -> url a = u).
  { intros u a. unfold scrape_but, scrape_all.
    destruct (String.eqb u "http://b.test"); [discriminate |].
    intros Heq. injection Heq as Heq. subst a. reflexivity. }
  split; [exact Hkeeps |]. split; [reflexivity |].
  exact (@process_urls_rerun_same_scraper (scrape_but "http://b.test")
           in_reverse_order in_reverse_order_permutes fresh_store sample_urls
           Hkeeps).
Defined.

(** * Sequences of inserts and whole batches *)

(** X17: Into a store constructed on a new file, any sequence of
    [insert_article] calls appends one row for each call, in call order:
    no call is skipped, and an url has as many rows as there were calls
    with it. *)
Theorem insert_all_into_new_store (articles : list Article) :
  rows (Articles (insert_all (init new_file) articles))
  = map row_of_article articles /\
  Labels (insert_all (init new_file) articles) = Labels (init new_file) /\
  forall u : string,
    count_url u (rows (Articles (insert_all (init new_file) articles)))
    = count_articles u articles.
Proof.
  assert (Hgen : forall (l : list Article) (self : pipeline),
             unique_url (Articles self) = false ->
             rows (Articles (insert_all self l))
             = rows (Articles self) ++ map row_of_article l /\
             Labels (insert_all self l) = Labels self).
  { induction l as [| a rest IH]; intros self Hfree; cbn [insert_all fold_left map].
    - rewrite app_nil_r. auto.
    - rewrite (insert_article_unconstrained self a Hfree). cbn [final].
      destruct (IH (with_articles self
                      {| unique_url := false;
                         rows := rows (Articles self) ++ [row_of_article a] |})
                   eq_refl) as [Hrows Hlabels].
      unfold insert_all in Hrows, Hlabels. rewrite Hrows, Hlabels. cbn.
      rewrite <- app_assoc. auto. }
  destruct (Hgen articles (init new_file) eq_refl) as [Hrows Hlabels].
  split; [exact Hrows |]. split; [exact Hlabels |].
  intros u. rewrite Hrows. apply count_url_rows_of_articles.
Qed.

Lemma map_snd_combine (A B : Type) (l1 : list A) :
  forall l2 : list B, map snd (combine l1 l2) = firstn (List.length l1) l2.
Proof.
  induction l1 as [| a rest IH]; intros [| b l2]; cbn; try reflexivity.
  rewrite IH. reflexivity.
Qed.

(** X6: On a Labels table without the constraint, the categories of the rows
    [process_labeled_data] adds are the first categories of the CSV, as
    many as there are urls left after the filter: a skipped url gives up
    its place in the url list and keeps it in the label list. *)
Theorem process_labeled_data_takes_leading_categories
    (self : pipeline) (df : list (string * string)) :
  unique_url (Labels self) = false ->
  let kept :=
    filter (fun u => negb (inb u (select_url fst (Labels self)))) (map fst df) in
  exists new : list label_row,
    rows (Labels (final (process_labeled_data self df)))
    = rows (Labels self) ++ new /\
    map fst new = kept /\
    map snd new = firstn (List.length kept) (map snd df).
Proof.
  intros Hfree. cbv zeta.
  rewrite process_labeled_data_unconstrained by exact Hfree.
  cbn [final with_labels Labels rows].
  exists (labeled_batch self df). split; [reflexivity |].
  split; [apply labeled_batch_urls |].
  unfold labeled_batch. apply map_snd_combine.
Qed.

Lemma executemany_insert_distinct (values : list label_row) :
  forall t : table label_row,
  NoDup (map fst values) ->
  (forall v, In v values -> ~ In (fst v) (map fst (rows t))) ->
  executemany_insert t values
  = ({| unique_url := unique_url t; rows := rows t ++ values |}, None).
Proof.
  induction values as [| v rest IH]; intros [key rs] Hnodup Hnew.
  - cbn. rewrite app_nil_r. reflexivity.
  - cbn [executemany_insert].
    destruct (execute_insert_cases fst {| unique_url := key; rows := rs |} v)
      as [[He _] | [_ [_ Hold]]].
    + rewrite He. cbv beta iota. cbn [unique_url rows].
      inversion Hnodup as [| x l Hnotin Hrest]; subst.
      etransitivity.
      * apply IH; [exact Hrest |].
        intros w Hw. cbn [rows]. rewrite map_app. intros Hin.
        apply in_app_or in Hin. destruct Hin as [Hin | [Heq | []]].
        -- apply (Hnew w (or_intror Hw)). exact Hin.
        -- apply Hnotin. rewrite Heq. apply in_map. exact Hw.
      * cbn [unique_url rows]. rewrite <- app_assoc. reflexivity.
    + exfalso. apply (Hnew v (or_introl eq_refl)). exact Hold.
Qed.

(** X7: When the CSV names no url twice, [process_labeled_data] does not
    raise, on a keyed Labels table as on one without the constraint: every
    url not labelled before gets its row. *)
Theorem process_labeled_data_distinct_urls_never_raises
    (self : pipeline) (df : list (string * string)) :
  NoDup (map fst df) ->
  let after := final (process_labeled_data self df) in
  raised (process_labeled_data self df) = None /\
  select_url fst (Labels after)
  = select_url fst (Labels self)
    ++ filter (fun u => negb (inb u (select_url fst (Labels self)))) (map fst df).
Proof.
  intros Hnodup. cbv zeta. rewrite process_labeled_data_unfold.
  cbn [final raised with_labels Labels].
  rewrite executemany_insert_distinct.
  - cbn [fst snd]. split; [reflexivity |].
    unfold select_url at 1. cbn [rows]. rewrite map_app, labeled_batch_urls.
    reflexivity.
  - rewrite labeled_batch_urls. apply NoDup_filter. exact Hnodup.
  - intros v Hv Hold.
    assert (Hin : In (fst v) (map fst (labeled_batch self df)))
      by (apply in_map; exact Hv).
    rewrite labeled_batch_urls in Hin. apply filter_In in Hin.
    destruct Hin as [_ Hneg]. apply negb_true_iff, inb_false_iff in Hneg.
    apply Hneg. exact Hold.
Qed.

Lemma process_labeled_data_takes_leading_categories_witness :
  unique_url (Labels labelled_store) = false /\
  exists new : list label_row,
    rows (Labels (final (process_labeled_data labelled_store labelled_csv)))
    = rows (Labels labelled_store) ++ new /\
    map fst new = ["http://b.test"] /\
    map snd new = firstn 1 (map snd labelled_csv).
Proof.
  split; [reflexivity |].
  exact (@process_labeled_data_takes_leading_categories labelled_store
           labelled_csv eq_refl).
Defined.

Lemma process_labeled_data_distinct_urls_never_raises_witness :
  let o := process_labeled_data keyed_store labelled_csv in
  NoDup (map fst labelled_csv) /\
  raised o = None /\
  select_url fst (Labels (final o))
  = select_url fst (Labels keyed_store) ++ ["http://a.test"; "http://b.test"].
Proof.
  cbv zeta.
  assert (Hnodup : NoDup (map fst labelled_csv)).
  { cbn. constructor.
    - intros [H | []]. discriminate H.
    - constructor; [intros [] | constructor]. }
  split; [exact Hnodup |].
  exact (@process_labeled_data_distinct_urls_never_raises keyed_store
           labelled_csv Hnodup).
Defined.
